(** * CODSOFT utilities: password generator and to-do task store

    A shallow embedding of [password_genrator.py] and [todo.py] together
    with the properties of their core logic.

    - [PasswordGenerator] embeds [generate_password].  The calls to Python's
      [random] module are threaded through an explicit random source, so
      that a statement quantified over the source covers every outcome.
    - [Todo] embeds [Task], [TodoManager] and the JSON file behind it. *)

From stdpp Require Import gmap strings list sorting pretty.
From Stdlib Require Import ZArith Ascii.

Set Warnings "-register-all,-clear-no-such-hyp".

(* ===================================================================== *)
(** * Part I: [password_genrator.py]                                     *)
(* ===================================================================== *)

Module PasswordGenerator.

Local Open Scope nat_scope.

(** ** The random source

    [random.choice] and [random.shuffle] both draw from the generator's
    [_randbelow].  The source is the infinite sequence of raw numbers that
    the successive draws will consume; [randbelow n] reduces the next raw
    number into [0, n).  Every sequence of outcomes of [_randbelow] arises
    from some source (take the outcomes themselves as raw numbers). *)

Definition rng : Type := nat → nat.

(** A computation draws from the source and either raises ([None]) or
    returns a value and the rest of the source. *)
Definition M (A : Type) : Type := rng → option (A * rng).

Definition raise {A} : M A := fun _ => None.

#[export] Instance M_ret : MRet M := fun A (a : A) r => Some (a, r).

#[export] Instance M_bind : MBind M := fun A B (k : A → M B) (m : M A) r =>
  match m r with
  | Some (a, r') => k a r'
  | None => None
  end.

(** [Random._randbelow(n)]: a number below [n]; [n = 0] is an error. *)
Definition randbelow (n : nat) : M nat :=
  fun r => match n with
           | 0 => None
           | _ => Some (r 0 mod n, fun k => r (S k))
           end.

(** [random.choice(seq)]: [seq[self._randbelow(len(seq))]], an [IndexError]
    on the empty sequence. *)
Definition choice {A} (seq : list A) : M A :=
  match seq with
  | [] => raise
  | _ => i ← randbelow (length seq) ;
         match seq !! i with
         | Some x => mret x
         | None => raise
         end
  end.

(** [[random.choice(seq) for _ in range(n)]] *)
Fixpoint choices {A} (n : nat) (seq : list A) : M (list A) :=
  match n with
  | 0 => mret []
  | S n' => c ← choice seq ; cs ← choices n' seq ; mret (c :: cs)
  end.

(** [x[i], x[j] = x[j], x[i]] *)
Definition swap {A} (x : list A) (i j : nat) : option (list A) :=
  match x !! j, x !! i with
  | Some xj, Some xi => Some (<[j := xi]> (<[i := xj]> x))
  | _, _ => None
  end.

(** The loop of [random.shuffle]:
    [for i in reversed(range(1, len(x))): j = randbelow(i + 1); swap].
    [shuffle_from i x] runs the iterations [i, i-1, ..., 1]. *)
Fixpoint shuffle_from {A} (i : nat) (x : list A) : M (list A) :=
  match i with
  | 0 => mret x
  | S i' => j ← randbelow (i + 1) ;
            match swap x i j with
            | Some x' => shuffle_from i' x'
            | None => raise
            end
  end.

Definition shuffle {A} (x : list A) : M (list A) :=
  shuffle_from (length x - 1) x.

(** ** The character classes of Python's [string] module *)

Definition ascii_lowercase : string := "abcdefghijklmnopqrstuvwxyz".
Definition ascii_uppercase : string := "ABCDEFGHIJKLMNOPQRSTUVWXYZ".
Definition digits : string := "0123456789".
Definition punctuation : string :=
  "!" +:+ String "034"%char "#$%&'()*+,-./:;<=>?@[\]^_`{|}~".

(** ** [generate_password] *)

Definition generate_password (length : Z) : M string :=
  let lower := String.list_ascii_of_string ascii_lowercase in
  let upper := String.list_ascii_of_string ascii_uppercase in
  let digits := String.list_ascii_of_string digits in
  let symbols := String.list_ascii_of_string punctuation in
  let all_chars := lower ++ upper ++ digits ++ symbols in
  c1 ← choice lower ;
  c2 ← choice upper ;
  c3 ← choice digits ;
  c4 ← choice symbols ;
  let password := [c1; c2; c3; c4] in
  password ← (if (length >? 4)%Z
              then rest ← choices (Z.to_nat (length - 4)) all_chars ;
                   mret (password ++ rest)
              else mret password) ;
  password ← shuffle password ;
  mret (String.string_of_list_ascii password).

(** ** Character classes as predicates on code points

    These are stated on the ASCII codes, independently of the tables the
    generator draws from. *)

Definition code_in (lo hi : nat) (c : ascii) : bool :=
  (lo <=? nat_of_ascii c) && (nat_of_ascii c <=? hi).

Definition is_lower : ascii → bool := code_in 97 122.
Definition is_upper : ascii → bool := code_in 65 90.
Definition is_digit : ascii → bool := code_in 48 57.
Definition is_symbol (c : ascii) : bool :=
  code_in 33 47 c || code_in 58 64 c || code_in 91 96 c || code_in 123 126 c.

(** [contains p s]: some character of [s] satisfies [p]. *)
Definition contains (p : ascii → bool) (s : string) : bool :=
  existsb p (String.list_ascii_of_string s).

(** ** [main]: the prompt loop around [generate_password]

    Standard input is the list of lines still to be read and standard
    output the list of what was written.  [int] is Python's conversion of
    a line to an integer ([None] for its [ValueError]); it is a parameter
    of the development. *)

Inductive written : Type :=
  | Print (s : string)      (* [print(s)] *)
  | Prompt (s : string).    (* the prompt of [input(s)] *)

(** How [main] ends: it returns, leaving the lines it did not read and the
    rest of the random source, or an exception leaves it. *)
Inductive exit : Type :=
  | Return (stdin : list string) (r : rng)
  | EOFError
  | IndexError.

Definition banner : string := "--- Password Generator ---".
Definition prompt : string := "Enter the desired length of the password (min 4): ".
Definition too_short : string :=
  "Password length should be at least 4 characters for better security.".
Definition invalid : string := "Invalid input! Please enter a numeric value.".

(** [f"\nGenerated Password: {password}"] *)
Definition generated (password : string) : string :=
  String "010"%char ("Generated Password: " +:+ password).

Section Main.

Variable int : string → option Z.

(** The [while True] loop; each iteration reads one line, and reading past
    the last line is the [EOFError] of [input], which nothing catches. *)
Fixpoint main_loop (stdin : list string) (r : rng) : list written * exit :=
  match stdin with
  | [] => ([Prompt prompt], EOFError)
  | length_input :: stdin =>
      match int length_input with
      | Some length =>
          if (length <? 4)%Z
          then let '(out, e) := main_loop stdin r in
               (Prompt prompt :: Print too_short :: out, e)
          else match generate_password length r with
               | Some (password, r) =>
                   ([Prompt prompt; Print (generated password)], Return stdin r)
               | None => ([Prompt prompt], IndexError)
               end
      | None => let '(out, e) := main_loop stdin r in
                (Prompt prompt :: Print invalid :: out, e)
      end
  end.

Definition main (stdin : list string) (r : rng) : list written * exit :=
  let '(out, e) := main_loop stdin r in (Print banner :: out, e).

(** A line that [main] turns down, and what it writes for it. *)
Definition turned_down (line : string) : bool :=
  match int line with
  | Some length => (length <? 4)%Z
  | None => true
  end.

Definition reply (line : string) : list written :=
  [Prompt prompt;
   Print (match int line with Some _ => too_short | None => invalid end)].

End Main.

(** A character of one of the four classes. *)
Definition in_alphabet (c : ascii) : bool :=
  is_lower c || is_upper c || is_digit c || is_symbol c.

End PasswordGenerator.

(* ===================================================================== *)
(** * Part II: [todo.py]                                                 *)
(* ===================================================================== *)

Module Todo.

Local Open Scope Z_scope.

(** ** Python values that [json.load] produces and [json.dump] accepts.
    A JSON object is a Python [dict] with string keys. *)

Inductive json : Type :=
  | JNull
  | JBool (b : bool)
  | JInt (n : Z)
  | JFloat (literal : string)
  | JStr (s : string)
  | JArr (items : list json)
  | JObj (members : gmap string json).

(** ** Exceptions and results *)

Inductive exn : Type :=
  | JSONDecodeError
  | FileNotFoundError
  | KeyError
  | TypeError.

Inductive result (A : Type) : Type :=
  | Ok (a : A)
  | Raise (e : exn).
Arguments Ok {A} a.
Arguments Raise {A} e.

#[export] Instance result_ret : MRet result := fun A a => Ok a.

#[export] Instance result_bind : MBind result := fun A B (k : A → result B) m =>
  match m with
  | Ok a => k a
  | Raise e => Raise e
  end.

(** ** The data model *)

Definition DATA_FILE : string := "tasks.json".

(** The [Task] dataclass, with the field types of its annotations. *)
Record Task : Type := mkTask {
  id : Z;
  description : string;
  category : string;
  status : string;
  created_at : string
}.

(** The two status values that the program stores. *)
Definition Pending : string := "Pending".
Definition Done : string := "Done ✅".

(** [Task(id=..., description=..., category=...)]: [status] takes its
    default, [created_at] the formatted reading [now] of the clock. *)
Definition new_Task (now : string) (id : Z) (description category : string) : Task :=
  mkTask id description category Pending now.

(** [task.status = s] *)
Definition set_status (s : string) (t : Task) : Task :=
  mkTask (id t) (description t) (category t) s (created_at t).

(** [Task.to_dict] *)
Definition to_dict (self : Task) : json :=
  JObj (<["id" := JInt (id self)]>
       (<["description" := JStr (description self)]>
       (<["category" := JStr (category self)]>
       (<["status" := JStr (status self)]>
       (<["created_at" := JStr (created_at self)]> ∅))))).

(** [data[key]] for a string [key]: a [KeyError] when a dict lacks the key,
    a [TypeError] on every other kind of value. *)
Definition getitem (data : json) (key : string) : result json :=
  match data with
  | JObj m => match m !! key with
              | Some v => Ok v
              | None => Raise KeyError
              end
  | _ => Raise TypeError
  end.

(** [Task.from_dict].  The five subscripts are evaluated in order and the
    dataclass stores what it is given without checking it against the
    annotations.  The result is [Some] task when the five values have the
    annotated types and [None] when the object built is not a [Task] of the
    data model (Python carries on with it; nothing here describes it). *)
Definition from_dict (data : json) : result (option Task) :=
  i ← getitem data "id";
  d ← getitem data "description";
  c ← getitem data "category";
  s ← getitem data "status";
  ca ← getitem data "created_at";
  mret (match i, d, c, s, ca with
        | JInt i, JStr d, JStr c, JStr s, JStr ca => Some (mkTask i d c s ca)
        | _, _, _, _, _ => None
        end).

(** [for item in data]: a list yields its items, a dict its keys, a string
    its characters; the other values are not iterable. *)
Definition iter (data : json) : result (list json) :=
  match data with
  | JArr items => Ok items
  | JObj m => Ok (JStr <$> (map_to_list m).*1)
  | JStr s => Ok ((λ c, JStr (String c EmptyString)) <$> String.list_ascii_of_string s)
  | _ => Raise TypeError
  end.

(** ** The file behind the store

    What [DATA_FILE] holds is either text that [json.load] decodes to a
    value, or text on which it raises [JSONDecodeError].  [json.dump] writes
    text that decodes to the value dumped.  The file is taken to hold text
    in the encoding it is opened with, and reads and writes of the file
    themselves to succeed (no permission or device error). *)

Inductive content : Type :=
  | Text (value : json)
  | Garbage.

(** The file system as far as the program sees it: [DATA_FILE], absent or
    with its content, and the number of times it has been written. *)
Record fs : Type := mkFs {
  file : option content;
  writes : nat
}.

(** [os.path.exists(DATA_FILE)] *)
Definition exists_ (d : fs) : bool :=
  match file d with
  | Some _ => true
  | None => false
  end.

(** [with open(DATA_FILE, "r") as file: json.load(file)] *)
Definition json_load (d : fs) : result json :=
  match file d with
  | None => Raise FileNotFoundError
  | Some Garbage => Raise JSONDecodeError
  | Some (Text v) => Ok v
  end.

(** [with open(DATA_FILE, "w") as file: json.dump(v, file, indent=4)] *)
Definition json_dump (v : json) (d : fs) : fs :=
  mkFs (Some (Text v)) (S (writes d)).

(** ** [TodoManager] *)

Record TodoManager : Type := mkManager {
  tasks : list Task
}.

(** [load_tasks].  [Ok None] is a load that went through with records
    outside the annotated types (see [from_dict]). *)
Definition load_tasks (self : TodoManager) (d : fs) : result (option TodoManager) :=
  if negb (exists_ d) then Ok (Some self)
  else
    match (data ← json_load d;
           items ← iter data;
           objs ← mapM from_dict items;
           mret (mkManager <$> mapM (M := option) (λ o, o) objs)) with
    | Raise JSONDecodeError | Raise FileNotFoundError => Ok (Some (mkManager []))
    | r => r
    end.

(** [TodoManager.__init__] *)
Definition init (d : fs) : result (option TodoManager) :=
  load_tasks (mkManager []) d.

(** [save_tasks] *)
Definition save_tasks (self : TodoManager) (d : fs) : fs :=
  json_dump (JArr (to_dict <$> tasks self)) d.

(** [max(...)] of a non-empty sequence: the running maximum, left to right. *)
Definition max_ (x : Z) (xs : list Z) : Z := foldl Z.max x xs.

(** [add_task].  The function has no [return] statement: the call evaluates
    to Python's [None]. *)
Definition add_task (description category : string) (now : string)
    (self : TodoManager) (d : fs) : option Task * TodoManager * fs :=
  let new_id := match tasks self with
                | [] => 1
                | t :: ts => max_ (id t) (id <$> ts) + 1
                end in
  let task := new_Task now new_id description category in
  let self := mkManager (tasks self ++ [task]) in
  let d := save_tasks self d in
  (None, self, d).

(** The loop of [complete_task] over the tasks not yet visited: the tasks
    after the update when one matches, [None] when the loop runs out. *)
Fixpoint complete_loop (task_id : Z) (ts : list Task) : option (list Task) :=
  match ts with
  | [] => None
  | task :: ts' =>
      if id task =? task_id then Some (set_status Done task :: ts')
      else cons task <$> complete_loop task_id ts'
  end.

(** [complete_task] *)
Definition complete_task (task_id : Z) (self : TodoManager) (d : fs)
    : bool * TodoManager * fs :=
  match complete_loop task_id (tasks self) with
  | Some ts => let self := mkManager ts in
               let d := save_tasks self d in
               (true, self, d)
  | None => (false, self, d)
  end.

(** [delete_task] *)
Definition delete_task (task_id : Z) (self : TodoManager) (d : fs)
    : bool * TodoManager * fs :=
  let initial_count := length (tasks self) in
  let self := mkManager (List.filter (λ t, negb (id t =? task_id)) (tasks self)) in
  if (length (tasks self) <? initial_count)%nat
  then let d := save_tasks self d in (true, self, d)
  else (false, self, d).

(** [get_all_tasks] *)
Definition get_all_tasks (self : TodoManager) : list Task := tasks self.

(** ** Sequences of operations *)

Inductive op : Type :=
  | Add (description category now : string)
  | Complete (task_id : Z)
  | Delete (task_id : Z).

Definition step (s : TodoManager * fs) (o : op) : TodoManager * fs :=
  match o with
  | Add description category now =>
      let '(_, self, d) := add_task description category now s.1 s.2 in (self, d)
  | Complete task_id =>
      let '(_, self, d) := complete_task task_id s.1 s.2 in (self, d)
  | Delete task_id =>
      let '(_, self, d) := delete_task task_id s.1 s.2 in (self, d)
  end.

Definition run (ops : list op) (s : TodoManager * fs) : TodoManager * fs :=
  foldl step s ops.

(** ** Notions used by the statements *)

(** The ids of a store, in order. *)
Definition ids (self : TodoManager) : list Z := id <$> tasks self.

(** The file holds the serialization of the whole in-memory collection. *)
Definition in_sync (self : TodoManager) (d : fs) : Prop :=
  file d = Some (Text (JArr (to_dict <$> tasks self))).

(** Removing the first task with a given id, as the specification words
    [delete]. *)
Fixpoint remove_first (task_id : Z) (ts : list Task) : list Task :=
  match ts with
  | [] => []
  | t :: ts' => if id t =? task_id then ts' else t :: remove_first task_id ts'
  end.

(** [m] is the largest element of [l]. *)
Definition is_max (m : Z) (l : list Z) : Prop :=
  m ∈ l ∧ ∀ i, i ∈ l → i ≤ m.

(** The id that [add_task] gives the task it creates, read off the end of
    the collection it leaves. *)
Definition added_id (description category now : string)
    (self : TodoManager) (d : fs) : option Z :=
  id <$> last (tasks (add_task description category now self d).1.2).

(** "Ids are never reused after deletion", as the specification words it:
    whatever the operations before and after, once [delete] has removed a
    task with id [i], no later [add] creates a task with id [i]. *)
Definition ids_never_reused : Prop :=
  ∀ (s : TodoManager * fs) (before after : list op) (i : Z)
    (description category now : string),
    i ∈ ids (run before s).1 →
    let s' := run (before ++ Delete i :: after) s in
    added_id description category now s'.1 s'.2 ≠ Some i.

(** A JSON object that carries the five field names of a task. *)
Definition has_fields (item : json) : bool :=
  match item with
  | JObj m => forallb (λ k, bool_decide (is_Some (m !! k)))
                ["id"; "description"; "category"; "status"; "created_at"]
  | _ => false
  end.

(** A JSON value that iterates over such objects only. *)
Definition record_list (data : json) : bool :=
  match data with
  | JArr items => forallb has_fields items
  | JObj m => bool_decide (m = ∅)
  | JStr s => bool_decide (s = "")
  | _ => false
  end.

(** ** [display_tasks]

    What goes to the console: a line of markup, a table, or the help text
    that [argparse] generates. *)

Record column : Type := mkColumn {
  header : string;
  style : string;
  no_wrap : bool
}.

Record table : Type := mkTable {
  title : string;
  columns : list column;
  rows : list (list string)
}.

Inductive printed : Type :=
  | Markup (s : string)
  | PrintTable (t : table)
  | Help.

(** [sub in s] on strings *)
Fixpoint str_in (sub s : string) : bool :=
  String.prefix sub s ||
  match s with
  | EmptyString => false
  | String _ s' => str_in sub s'
  end.

(** [f"[{color}]{text}[/{color}]"] *)
Definition tagged (color text : string) : string :=
  "[" +:+ color +:+ "]" +:+ text +:+ "[/" +:+ color +:+ "]".

(** The row that the loop of [display_tasks] adds for a task; [str(task.id)]
    is the decimal numeral. *)
Definition row (task : Task) : list string :=
  let status_color := if str_in "Done" (status task) then "green" else "red" in
  [pretty (id task); description task; category task;
   tagged status_color (status task); created_at task].

Definition display_tasks (manager : TodoManager) : list printed :=
  let tasks := get_all_tasks manager in
  match tasks with
  | [] => [Markup "[yellow]No tasks found. Add one using 'add'![/yellow]"]
  | _ => [PrintTable (mkTable "Your To-Do List"
            [mkColumn "ID" "cyan" true;
             mkColumn "Description" "white" false;
             mkColumn "Category" "magenta" false;
             mkColumn "Status" "green" false;
             mkColumn "Created" "dim" false]
            (row <$> tasks))]
  end.

(** ** [main]

    The namespace that [parser.parse_args()] returns, for a command line it
    accepts; [cat] is ["General"] when [--cat] was not given. *)
Inductive args : Type :=
  | args_add (description cat : string)
  | args_list
  | args_done (id : Z)
  | args_delete (id : Z)
  | args_none.

(** [main], for parsed arguments [a] and the clock reading [now]: what it
    prints and the file it leaves.  The manager is built, and the file
    loaded, before anything else.  [Ok None]: the load went through with
    records outside the annotated types (see [load_tasks]). *)
Definition main (a : args) (now : string) (d : fs)
    : result (option (list printed * fs)) :=
  m ← init d;
  mret (manager ← m;
        Some (match a with
              | args_add description cat =>
                  let '(_, _, d) := add_task description cat now manager d in
                  ([Markup "[bold green]Task added successfully![/bold green]"], d)
              | args_list => (display_tasks manager, d)
              | args_done id =>
                  let '(found, _, d) := complete_task id manager d in
                  if found
                  then ([Markup ("[bold green]Task " +:+ pretty id
                                 +:+ " marked as done![/bold green]")], d)
                  else ([Markup ("[bold red]Task " +:+ pretty id
                                 +:+ " not found.[/bold red]")], d)
              | args_delete id =>
                  let '(found, _, d) := delete_task id manager d in
                  if found
                  then ([Markup ("[bold red]Task " +:+ pretty id
                                 +:+ " deleted.[/bold red]")], d)
                  else ([Markup ("[bold red]Task " +:+ pretty id
                                 +:+ " not found.[/bold red]")], d)
              | args_none => ([Help], d)
              end)).

(** Successive runs of the program, one per command line, each on the file
    that the run before left. *)
Fixpoint session (runs : list (args * string)) (d : fs) : result (option fs) :=
  match runs with
  | [] => Ok (Some d)
  | (a, now) :: runs =>
      o ← main a now d;
      match o with
      | Some (_, d) => session runs d
      | None => Ok None
      end
  end.

(** The store operation behind a command line, when there is one. *)
Definition op_of (run : args * string) : list op :=
  match run.1 with
  | args_add description cat => [Add description cat run.2]
  | args_done id => [Complete id]
  | args_delete id => [Delete id]
  | args_list | args_none => []
  end.

End Todo.

(* ===================================================================== *)
(** * Part III: properties of the password generator                     *)
(* ===================================================================== *)

Module PasswordGeneratorSpec.
Import PasswordGenerator.

Local Open Scope nat_scope.

(** ** The monad *)

Lemma bind_Some {A B} (m : M A) (k : A → M B) r a r' :
  m r = Some (a, r') → (m ≫= k) r = k a r'.
Proof. intros H. unfold mbind, M_bind. by rewrite H. Qed.

Lemma ret_Some {A} (a : A) r : (mret a : M A) r = Some (a, r).
Proof. reflexivity. Qed.

(** ** Draws *)

Lemma randbelow_lt n r :
  0 < n → ∃ j r', randbelow n r = Some (j, r') ∧ j < n.
Proof.
  intros Hn. destruct n as [|n]; [lia|].
  eexists _, _. split; [reflexivity|].
  apply Nat.mod_upper_bound. lia.
Qed.

Lemma choice_elem {A} (seq : list A) r :
  seq ≠ [] → ∃ c r', choice seq r = Some (c, r') ∧ c ∈ seq.
Proof.
  intros Hne.
  destruct (randbelow_lt (length seq) r) as (j & r' & Hj & Hlt).
  { destruct seq; [done | simpl; lia]. }
  destruct (lookup_lt_is_Some_2 seq j Hlt) as [c Hc].
  exists c, r'. split.
  - destruct seq as [|a seq]; [done|]. unfold choice.
    rewrite (bind_Some _ _ _ _ _ Hj). by rewrite Hc.
  - by eapply list_elem_of_lookup_2.
Qed.

Lemma choices_elem {A} n (seq : list A) r :
  seq ≠ [] →
  ∃ cs r', choices n seq r = Some (cs, r') ∧ length cs = n ∧ Forall (.∈ seq) cs.
Proof.
  intros Hne. revert r. induction n as [|n IH]; intros r.
  - exists [], r. by repeat split.
  - destruct (choice_elem seq r Hne) as (c & r1 & Hc & Hin).
    destruct (IH r1) as (cs & r2 & Hcs & Hlen & Hall).
    exists (c :: cs), r2. repeat split.
    + simpl. rewrite (bind_Some _ _ _ _ _ Hc), (bind_Some _ _ _ _ _ Hcs).
      reflexivity.
    + simpl. by rewrite Hlen.
    + by constructor.
Qed.

(** ** The shuffle permutes *)

Lemma insert_perm_head {A} (t : list A) j (b h : A) :
  t !! j = Some b → b :: <[j := h]> t ≡ₚ h :: t.
Proof.
  revert j. induction t as [|a t IH]; intros [|j] Hj; simplify_eq/=.
  - apply perm_swap.
  - rewrite (perm_swap a b), (IH _ Hj). apply perm_swap.
Qed.

Lemma swap_perm {A} (x x' : list A) i j :
  swap x i j = Some x' → x' ≡ₚ x.
Proof.
  unfold swap. destruct (x !! j) as [xj|] eqn:Hj; [|done].
  destruct (x !! i) as [xi|] eqn:Hi; [|done].
  intros [= <-]. revert i j Hi Hj.
  induction x as [|a x IH]; intros [|i] [|j] Hi Hj; simplify_eq/=.
  - done.
  - by apply insert_perm_head.
  - by apply insert_perm_head.
  - by rewrite IH.
Qed.

Lemma swap_is_Some {A} (x : list A) i j :
  i < length x → j < length x → is_Some (swap x i j).
Proof.
  intros Hi Hj. unfold swap.
  destruct (lookup_lt_is_Some_2 x j Hj) as [xj ->].
  destruct (lookup_lt_is_Some_2 x i Hi) as [xi ->]. by eexists.
Qed.

Lemma shuffle_from_perm {A} i (x : list A) r :
  i = 0 ∨ i < length x →
  ∃ x' r', shuffle_from i x r = Some (x', r') ∧ x' ≡ₚ x.
Proof.
  revert x r. induction i as [|i IH]; intros x r Hi.
  - by exists x, r.
  - destruct Hi as [|Hi]; [lia|].
    destruct (randbelow_lt (S i + 1) r) as (j & r1 & Hj & Hlt); [lia|].
    destruct (swap_is_Some x (S i) j) as [x1 Hx1]; [lia..|].
    pose proof (swap_perm _ _ _ _ Hx1) as Hp.
    destruct (IH x1 r1) as (x' & r' & Hs & Hp').
    { right. rewrite (Permutation_length Hp). lia. }
    exists x', r'. split; [|by rewrite Hp'].
    cbn [shuffle_from]. rewrite (bind_Some _ _ _ _ _ Hj). by rewrite Hx1.
Qed.

Lemma shuffle_perm {A} (x : list A) r :
  ∃ x' r', shuffle x r = Some (x', r') ∧ x' ≡ₚ x.
Proof.
  apply shuffle_from_perm. destruct x; [by left | right; simpl; lia].
Qed.

(** ** The tables of the [string] module are the classes *)

Lemma is_lower_table c :
  is_lower c = bool_decide (c ∈ String.list_ascii_of_string ascii_lowercase).
Proof. by destruct c as [[] [] [] [] [] [] [] []]; vm_compute. Qed.

Lemma is_upper_table c :
  is_upper c = bool_decide (c ∈ String.list_ascii_of_string ascii_uppercase).
Proof. by destruct c as [[] [] [] [] [] [] [] []]; vm_compute. Qed.

Lemma is_digit_table c :
  is_digit c = bool_decide (c ∈ String.list_ascii_of_string digits).
Proof. by destruct c as [[] [] [] [] [] [] [] []]; vm_compute. Qed.

Lemma is_symbol_table c :
  is_symbol c = bool_decide (c ∈ String.list_ascii_of_string punctuation).
Proof. by destruct c as [[] [] [] [] [] [] [] []]; vm_compute. Qed.

Lemma length_string_of_list (l : list ascii) :
  String.length (String.string_of_list_ascii l) = length l.
Proof. induction l as [|a l IH]; simpl; congruence. Qed.

Lemma contains_elem (p : ascii → bool) (l : list ascii) c :
  c ∈ l → p c = true → contains p (String.string_of_list_ascii l) = true.
Proof.
  intros Hin Hp. unfold contains.
  rewrite String.list_ascii_of_string_of_list_ascii.
  apply existsb_exists. exists c. split; [by apply list_elem_of_In | done].
Qed.

(** ** What every run of [generate_password] produces *)

Lemma generate_password_inv (length : Z) (r : rng) :
  ∃ c1 c2 c3 c4 rest pw r',
    generate_password length r = Some (pw, r') ∧
    is_lower c1 = true ∧ is_upper c2 = true ∧
    is_digit c3 = true ∧ is_symbol c4 = true ∧
    List.length rest = (if (length >? 4)%Z then Z.to_nat (length - 4) else 0) ∧
    String.list_ascii_of_string pw ≡ₚ [c1; c2; c3; c4] ++ rest.
Proof.
  destruct (choice_elem (String.list_ascii_of_string ascii_lowercase) r)
    as (c1 & r1 & E1 & H1); [done|].
  destruct (choice_elem (String.list_ascii_of_string ascii_uppercase) r1)
    as (c2 & r2 & E2 & H2); [done|].
  destruct (choice_elem (String.list_ascii_of_string digits) r2)
    as (c3 & r3 & E3 & H3); [done|].
  destruct (choice_elem (String.list_ascii_of_string punctuation) r3)
    as (c4 & r4 & E4 & H4); [done|].
  assert (∃ rest r5,
    (if (length >? 4)%Z
     then rest ← choices (Z.to_nat (length - 4))
                  (String.list_ascii_of_string ascii_lowercase ++
                   String.list_ascii_of_string ascii_uppercase ++
                   String.list_ascii_of_string digits ++
                   String.list_ascii_of_string punctuation);
          mret ([c1; c2; c3; c4] ++ rest)
     else mret [c1; c2; c3; c4]) r4 = Some ([c1; c2; c3; c4] ++ rest, r5) ∧
    List.length rest = (if (length >? 4)%Z then Z.to_nat (length - 4) else 0))
    as (rest & r5 & E5 & Hlen).
  { destruct (length >? 4)%Z.
    - destruct (choices_elem (Z.to_nat (length - 4))
        (String.list_ascii_of_string ascii_lowercase ++
         String.list_ascii_of_string ascii_uppercase ++
         String.list_ascii_of_string digits ++
         String.list_ascii_of_string punctuation) r4)
        as (cs & r5 & Hcs & Hl & _); [done|].
      exists cs, r5. split; [|exact Hl].
      rewrite (bind_Some _ _ _ _ _ Hcs). reflexivity.
    - by exists [], r4. }
  destruct (shuffle_perm ([c1; c2; c3; c4] ++ rest) r5) as (x & r6 & E6 & Hp).
  exists c1, c2, c3, c4, rest, (String.string_of_list_ascii x), r6.
  split.
  { unfold generate_password. cbv zeta.
    rewrite (bind_Some _ _ _ _ _ E1), (bind_Some _ _ _ _ _ E2),
      (bind_Some _ _ _ _ _ E3), (bind_Some _ _ _ _ _ E4),
      (bind_Some _ _ _ _ _ E5), (bind_Some _ _ _ _ _ E6).
    reflexivity. }
  rewrite is_lower_table, is_upper_table, is_digit_table, is_symbol_table.
  rewrite !bool_decide_eq_true, String.list_ascii_of_string_of_list_ascii.
  done.
Qed.

(** ** The claims *)

(** C1.  For every integer [length >= 4] and every random source,
    [generate_password length] returns a string of exactly [length]
    characters that contains at least one lowercase letter, one uppercase
    letter, one decimal digit and one punctuation symbol. *)
Theorem generate_password_diverse (length : Z) (r : rng) :
  (4 ≤ length)%Z →
  ∃ pw r', generate_password length r = Some (pw, r') ∧
    Z.of_nat (String.length pw) = length ∧
    contains is_lower pw = true ∧ contains is_upper pw = true ∧
    contains is_digit pw = true ∧ contains is_symbol pw = true.
Proof.
  intros Hlen.
  destruct (generate_password_inv length r)
    as (c1 & c2 & c3 & c4 & rest & pw & r' & E & L & U & D & S & Hrest & Hp).
  exists pw, r'. split; [exact E|].
  assert (Hmem : ∀ c, c ∈ [c1; c2; c3; c4] → c ∈ String.list_ascii_of_string pw).
  { intros c Hc. rewrite Hp. apply elem_of_app. by left. }
  assert (Hc : ∀ p c, c ∈ [c1; c2; c3; c4] → p c = true → contains p pw = true).
  { intros p c Hin Hpc. rewrite <- (String.string_of_list_ascii_of_string pw).
    eapply contains_elem; [by apply Hmem | done]. }
  split.
  { rewrite <- (String.string_of_list_ascii_of_string pw), length_string_of_list.
    rewrite (Permutation_length Hp), length_app, Hrest. simpl.
    destruct (Z.gtb_spec length 4); lia. }
  repeat split.
  - apply (Hc _ c1); [set_solver | done].
  - apply (Hc _ c2); [set_solver | done].
  - apply (Hc _ c3); [set_solver | done].
  - apply (Hc _ c4); [set_solver | done].
Qed.

Lemma generate_password_diverse_witness :
  (4 ≤ 10)%Z ∧
  ∃ pw r', generate_password 10 (λ k, k * 7 + 3) = Some (pw, r') ∧
    Z.of_nat (String.length pw) = 10%Z ∧
    contains is_lower pw = true ∧ contains is_upper pw = true ∧
    contains is_digit pw = true ∧ contains is_symbol pw = true.
Proof.
  split; [lia|]. apply (generate_password_diverse 10 (λ k, k * 7 + 3)); lia.
Defined.

(** C10.  For every integer [length <= 4], zero and the negative ones
    included, [generate_password length] returns a string of exactly four
    characters, one drawn from each of the four classes, whatever the
    requested length. *)
Theorem generate_password_short (length : Z) (r : rng) :
  (length ≤ 4)%Z →
  ∃ c1 c2 c3 c4 pw r', generate_password length r = Some (pw, r') ∧
    String.length pw = 4 ∧
    is_lower c1 = true ∧ is_upper c2 = true ∧
    is_digit c3 = true ∧ is_symbol c4 = true ∧
    String.list_ascii_of_string pw ≡ₚ [c1; c2; c3; c4].
Proof.
  intros Hlen.
  destruct (generate_password_inv length r)
    as (c1 & c2 & c3 & c4 & rest & pw & r' & E & L & U & D & S & Hrest & Hp).
  destruct (Z.gtb_spec length 4); [lia|].
  destruct rest; [|done]. rewrite app_nil_r in Hp.
  exists c1, c2, c3, c4, pw, r'. repeat split; try done.
  rewrite <- (String.string_of_list_ascii_of_string pw), length_string_of_list.
  by rewrite (Permutation_length Hp).
Qed.

Lemma generate_password_short_witness :
  (-3 ≤ 4)%Z ∧
  ∃ c1 c2 c3 c4 pw r', generate_password (-3) (λ k, k * 7 + 3) = Some (pw, r') ∧
    String.length pw = 4 ∧
    is_lower c1 = true ∧ is_upper c2 = true ∧
    is_digit c3 = true ∧ is_symbol c4 = true ∧
    String.list_ascii_of_string pw ≡ₚ [c1; c2; c3; c4].
Proof.
  split; [lia|]. apply (generate_password_short (-3) (λ k, k * 7 + 3)); lia.
Defined.

(** ** Further properties of [generate_password] and of [main] *)

Lemma tables_in_alphabet c :
  c ∈ String.list_ascii_of_string ascii_lowercase ++
      String.list_ascii_of_string ascii_uppercase ++
      String.list_ascii_of_string digits ++
      String.list_ascii_of_string punctuation →
  in_alphabet c = true.
Proof.
  intros Hc%list_elem_of_In. revert c Hc. apply forallb_forall. by vm_compute.
Qed.

(** Every run, in full: the four mandatory draws, the [rest] drawn from
    the four tables together, and the shuffle of them all. *)
Lemma generate_password_run (length : Z) (r : rng) :
  ∃ c1 c2 c3 c4 rest pw r',
    generate_password length r = Some (pw, r') ∧
    is_lower c1 = true ∧ is_upper c2 = true ∧
    is_digit c3 = true ∧ is_symbol c4 = true ∧
    Forall (λ c, in_alphabet c = true) rest ∧
    List.length rest = Z.to_nat (length - 4) ∧
    String.list_ascii_of_string pw ≡ₚ [c1; c2; c3; c4] ++ rest.
Proof.
  set (lower := String.list_ascii_of_string ascii_lowercase).
  set (upper := String.list_ascii_of_string ascii_uppercase).
  set (digs := String.list_ascii_of_string digits).
  set (symbols := String.list_ascii_of_string punctuation).
  destruct (choice_elem lower r) as (c1 & r1 & E1 & H1); [done|].
  destruct (choice_elem upper r1) as (c2 & r2 & E2 & H2); [done|].
  destruct (choice_elem digs r2) as (c3 & r3 & E3 & H3); [done|].
  destruct (choice_elem symbols r3) as (c4 & r4 & E4 & H4); [done|].
  destruct (choices_elem (Z.to_nat (length - 4))
              (lower ++ upper ++ digs ++ symbols) r4)
    as (cs & r5 & Ecs & Hlen & Hall); [done|].
  set (rest := if (length >? 4)%Z then cs else []).
  set (r5' := if (length >? 4)%Z then r5 else r4).
  destruct (shuffle_perm ([c1; c2; c3; c4] ++ rest) r5') as (x & r6 & E6 & Hp).
  exists c1, c2, c3, c4, rest, (String.string_of_list_ascii x), r6.
  split.
  { unfold generate_password. cbv zeta. fold lower upper digs symbols.
    rewrite (bind_Some _ _ _ _ _ E1), (bind_Some _ _ _ _ _ E2),
      (bind_Some _ _ _ _ _ E3), (bind_Some _ _ _ _ _ E4).
    subst rest r5'. destruct (length >? 4)%Z.
    - erewrite (bind_Some _ _ r4); last by rewrite (bind_Some _ _ _ _ _ Ecs).
      by rewrite (bind_Some _ _ _ _ _ E6).
    - erewrite (bind_Some _ _ r4); last reflexivity.
      by rewrite (bind_Some _ _ _ _ _ E6). }
  rewrite is_lower_table, is_upper_table, is_digit_table, is_symbol_table.
  rewrite !bool_decide_eq_true, String.list_ascii_of_string_of_list_ascii.
  repeat split; try done; subst rest; destruct (Z.gtb_spec length 4); try done.
  - eapply Forall_impl; [exact Hall|]. apply tables_in_alphabet.
  - simpl. lia.
Qed.

(** X1.  Whatever the requested length and the random source,
    [generate_password] returns (it never raises); the password has
    [max(4, length)] characters and each of them is a letter, a digit or a
    punctuation symbol: no space, no control character, no other byte. *)
Theorem generate_password_alphabet (length : Z) (r : rng) :
  ∃ pw r', generate_password length r = Some (pw, r') ∧
    Z.of_nat (String.length pw) = Z.max 4 length ∧
    forallb in_alphabet (String.list_ascii_of_string pw) = true.
Proof.
  destruct (generate_password_run length r)
    as (c1 & c2 & c3 & c4 & rest & pw & r' & E & L & U & D & S & Hall & Hlen & Hp).
  exists pw, r'. split; [exact E|]. split.
  - rewrite <- (String.string_of_list_ascii_of_string pw), length_string_of_list.
    rewrite (Permutation_length Hp), length_app, Hlen. simpl. lia.
  - apply forallb_forall. intros c Hc%list_elem_of_In. rewrite Hp in Hc.
    apply elem_of_app in Hc as [Hc|Hc].
    + unfold in_alphabet.
      repeat apply elem_of_cons in Hc as [->|Hc];
        [by rewrite L | by rewrite U, orb_true_r
        | by rewrite D, !orb_true_r | by rewrite S, !orb_true_r
        | by apply elem_of_nil in Hc].
    + by eapply Forall_forall in Hall.
Qed.

(** The password that follows an accepted length. *)
Lemma generate_password_accepted (length : Z) (r : rng) :
  (4 ≤ length)%Z →
  ∃ pw r', generate_password length r = Some (pw, r') ∧
    Z.of_nat (String.length pw) = length ∧
    contains is_lower pw = true ∧ contains is_upper pw = true ∧
    contains is_digit pw = true ∧ contains is_symbol pw = true.
Proof.
  intros Hlen4.
  destruct (generate_password_run length r)
    as (c1 & c2 & c3 & c4 & rest & pw & r' & E & L & U & D & S & _ & Hlen & Hp).
  exists pw, r'. split; [exact E|].
  assert (Hc : ∀ p c, c ∈ [c1; c2; c3; c4] → p c = true → contains p pw = true).
  { intros p c Hin Hpc. rewrite <- (String.string_of_list_ascii_of_string pw).
    eapply contains_elem; [|done]. rewrite Hp. apply elem_of_app. by left. }
  split.
  { rewrite <- (String.string_of_list_ascii_of_string pw), length_string_of_list.
    rewrite (Permutation_length Hp), length_app, Hlen. simpl. lia. }
  repeat split.
  - apply (Hc _ c1); [by left | done].
  - apply (Hc _ c2); [by right; left | done].
  - apply (Hc _ c3); [by do 2 right; left | done].
  - apply (Hc _ c4); [by do 3 right; left | done].
Qed.

Lemma main_loop_turned_down int (before stdin : list string) (r : rng) :
  forallb (turned_down int) before = true →
  main_loop int (before ++ stdin) r =
    (concat (reply int <$> before) ++ (main_loop int stdin r).1,
     (main_loop int stdin r).2).
Proof.
  induction before as [|line before IH]; intros Hb.
  - simpl. by destruct (main_loop int stdin r).
  - cbn [forallb] in Hb. apply andb_true_iff in Hb as [Hl Hb].
    specialize (IH Hb). cbn [app main_loop fmap list_fmap concat].
    unfold turned_down, reply in *. rewrite IH.
    destruct (int line) as [n|]; [rewrite Hl|]; done.
Qed.

(** X2.  [main] turns down every line that is not a number or is a number
    below 4, answering each with its message, and stops at the first line
    that is a number of at least 4: it prints one password, generated for
    that number, of that many characters and with all four classes, and
    returns without reading the lines that follow. *)
Theorem main_accepts_first_valid int (before : list string) (line : string)
    (after : list string) (r : rng) :
  forallb (turned_down int) before = true →
  turned_down int line = false →
  ∃ length password r',
    int line = Some length ∧ (4 ≤ length)%Z ∧
    generate_password length r = Some (password, r') ∧
    main int (before ++ line :: after) r =
      (Print banner :: concat (reply int <$> before)
         ++ [Prompt prompt; Print (generated password)],
       Return after r') ∧
    Z.of_nat (String.length password) = length ∧
    contains is_lower password = true ∧ contains is_upper password = true ∧
    contains is_digit password = true ∧ contains is_symbol password = true.
Proof.
  intros Hb Hl. unfold turned_down in Hl.
  destruct (int line) as [length|] eqn:Ei; [|done].
  apply Z.ltb_ge in Hl.
  destruct (generate_password_accepted length r Hl) as (pw & r' & E & Hprops).
  exists length, pw, r'. repeat split; try done; try apply Hprops.
  unfold main. rewrite (main_loop_turned_down _ _ _ _ Hb).
  cbn [main_loop]. rewrite Ei, (proj2 (Z.ltb_ge _ _) Hl), E. done.
Qed.

Lemma main_accepts_first_valid_witness :
  let int := λ s : string,
    if decide (s = "12") then Some 12%Z
    else if decide (s = "3") then Some 3%Z else None in
  let r : rng := λ k, k * 7 + 3 in
  (forallb (turned_down int) ["abc"; "3"] = true ∧ turned_down int "12" = false) ∧
  ∃ password r',
    main int (["abc"; "3"] ++ "12" :: ["more"]) r =
      (Print banner :: concat (reply int <$> ["abc"; "3"])
         ++ [Prompt prompt; Print (generated password)],
       Return ["more"] r') ∧
    Z.of_nat (String.length password) = 12%Z.
Proof.
  intros int r. split; [by split|].
  destruct (main_accepts_first_valid int ["abc"; "3"] "12" ["more"] r
              eq_refl eq_refl)
    as (length & password & r' & Ei & _ & _ & Em & Hlen & _).
  exists password, r'. split; [exact Em|].
  rewrite Hlen. by injection Ei as <-.
Defined.

(** X3.  When no line of the input is a number of at least 4, [main]
    answers every line with its message, prints no password and ends in the
    [EOFError] of the read that follows the last line. *)
Theorem main_runs_out_of_input int (stdin : list string) (r : rng) :
  forallb (turned_down int) stdin = true →
  main int stdin r =
    (Print banner :: concat (reply int <$> stdin) ++ [Prompt prompt], EOFError).
Proof.
  intros Hb. unfold main.
  rewrite <- (app_nil_r stdin) at 1.
  by rewrite (main_loop_turned_down _ _ _ _ Hb).
Qed.

Lemma main_runs_out_of_input_witness :
  let int := λ s : string, if decide (s = "3") then Some 3%Z else None in
  forallb (turned_down int) ["abc"; "3"] = true ∧
  main int ["abc"; "3"] (λ k, k) =
    (Print banner :: concat (reply int <$> ["abc"; "3"]) ++ [Prompt prompt],
     EOFError).
Proof.
  intros int. split; [done|].
  exact (main_runs_out_of_input int ["abc"; "3"] (λ k, k) eq_refl).
Defined.

End PasswordGeneratorSpec.

(* ===================================================================== *)
(** * Part IV: properties of the task store                              *)
(* ===================================================================== *)

Module TodoSpec.
Import Todo.

Local Open Scope Z_scope.

(** ** Serialization *)

Lemma from_dict_to_dict (t : Task) : from_dict (to_dict t) = Ok (Some t).
Proof. by destruct t. Qed.

Lemma mapM_from_dict_to_dict (ts : list Task) :
  mapM from_dict (to_dict <$> ts) = Ok (Some <$> ts).
Proof.
  induction ts as [|t ts IH]; [done|].
  cbn [fmap list_fmap mapM]. fold (to_dict <$> ts).
  by rewrite from_dict_to_dict, IH.
Qed.

(** C2.  Saving any list of tasks and then loading yields a collection
    equal to it, in the five fields of every task and in order. *)
Theorem save_load_roundtrip (ts : list Task) (self : TodoManager) (d : fs) :
  load_tasks self (save_tasks (mkManager ts) d) = Ok (Some (mkManager ts)).
Proof.
  unfold save_tasks, json_dump, load_tasks.
  cbn [tasks exists_ file negb json_load iter mbind result_bind].
  rewrite mapM_from_dict_to_dict. cbn [mbind result_bind mret result_ret].
  by rewrite mapM_fmap_Some.
Qed.

(** ** [add_task] *)

Lemma max_is_max (x : Z) (xs : list Z) : is_max (max_ x xs) (x :: xs).
Proof.
  unfold max_. revert x. induction xs as [|y xs IH]; intros x.
  - split; [by left|]. intros i Hi%list_elem_of_singleton. simpl. lia.
  - destruct (IH (Z.max x y)) as [Hin Hle]. simpl. split.
    + apply elem_of_cons in Hin as [->|Hin].
      * destruct (Z.max_spec x y) as [[_ ->]|[_ ->]]; [right|]; by left.
      * by do 2 right.
    + intros i. rewrite !elem_of_cons. intros [->|[->|Hi]].
      * etrans; [apply (Z.le_max_l _ y)|]. apply Hle. by left.
      * etrans; [apply (Z.le_max_r x)|]. apply Hle. by left.
      * apply Hle. by right.
Qed.

Lemma add_task_eq (description category now : string) (self : TodoManager) (d : fs) :
  ∃ new_id,
    let self' := mkManager (tasks self ++ [mkTask new_id description category Pending now]) in
    add_task description category now self d = (None, self', save_tasks self' d) ∧
    match ids self with
    | [] => new_id = 1
    | _ :: _ => ∃ m, is_max m (ids self) ∧ new_id = m + 1
    end.
Proof.
  destruct self as [[|t ts]].
  - by exists 1.
  - exists (max_ (id t) (id <$> ts) + 1). split; [done|].
    eexists. split; [apply max_is_max | done].
Qed.

(** C6.  [add_task] creates a task whose id is the largest existing id plus
    one, or 1 on an empty store, with status [Pending] and the category
    given, and appends it to the end of the collection; from an empty store
    the first [add] gives id 1 and the second id 2. *)
Theorem add_task_new_id (description category now : string)
    (self : TodoManager) (d : fs) :
  (∃ new_id,
    tasks (add_task description category now self d).1.2 =
      tasks self ++ [mkTask new_id description category Pending now] ∧
    match ids self with
    | [] => new_id = 1
    | _ :: _ => ∃ m, is_max m (ids self) ∧ new_id = m + 1
    end) ∧
  (∀ description' category' now',
    ids (run [Add description category now; Add description' category' now']
           (mkManager [], d)).1 = [1; 2]).
Proof.
  split; [|done].
  destruct (add_task_eq description category now self d) as (new_id & E & Hid).
  exists new_id. split; [by rewrite E | done].
Qed.

(** C9 (as amended).  [add_task] returns no value: the call evaluates to
    [None], and the task it created is the last element of the collection. *)
Theorem add_task_returns_None (description category now : string)
    (self : TodoManager) (d : fs) :
  (add_task description category now self d).1.1 = None ∧
  ∃ new_id,
    last (tasks (add_task description category now self d).1.2) =
      Some (mkTask new_id description category Pending now).
Proof.
  destruct (add_task_eq description category now self d) as (new_id & E & _).
  rewrite E. split; [done|]. exists new_id. cbn. apply last_snoc.
Qed.

(** C9, counterexample.  On the empty store [add_task] creates the task
    with id 1 and does not return it. *)
Lemma add_task_no_return_value :
  let '(r, self, _) :=
    add_task "buy milk" "Personal" "2024-01-01 10:00" (mkManager []) (mkFs None 0) in
  last (tasks self) = Some (mkTask 1 "buy milk" "Personal" Pending "2024-01-01 10:00") ∧
  r ≠ Some (mkTask 1 "buy milk" "Personal" Pending "2024-01-01 10:00").
Proof. by split. Qed.

(** ** [complete_task] *)

(** The loop stops at the first task, in order, whose id matches. *)
Lemma complete_loop_find (task_id : Z) (ts : list Task) :
  complete_loop task_id ts =
    (λ it, <[it.1 := set_status Done it.2]> ts)
      <$> list_find (λ t, id t = task_id) ts.
Proof.
  induction ts as [|t ts IH]; [done|].
  cbn [complete_loop list_find]. destruct (Z.eqb_spec (id t) task_id) as [E|E].
  - by rewrite decide_True.
  - rewrite decide_False by done. rewrite IH.
    by destruct (list_find _ ts) as [[i t']|].
Qed.

Lemma complete_loop_again (task_id : Z) (ts ts' : list Task) :
  complete_loop task_id ts = Some ts' →
  complete_loop task_id ts' = Some ts' ∧
  ∃ i t, list_find (λ t, id t = task_id) ts' = Some (i, t) ∧ status t = Done.
Proof.
  revert ts'. induction ts as [|t ts IH]; intros ts'; [done|].
  cbn [complete_loop]. destruct (Z.eqb_spec (id t) task_id) as [E|E].
  - intros [= <-]. cbn [complete_loop set_status id list_find].
    rewrite (proj2 (Z.eqb_eq _ _) E), decide_True by done.
    split; [done|]. by eexists _, _.
  - destruct (complete_loop task_id ts) as [ts1|] eqn:E1; [|done].
    intros [= <-]. destruct (IH ts1 eq_refl) as (E2 & i & t' & Hf & Hs).
    cbn [complete_loop list_find].
    rewrite (proj2 (Z.eqb_neq _ _) E), E2, decide_False, Hf by done.
    split; [done|]. by eexists _, _.
Qed.

(** C3.  [complete_task] finds the first task, in insertion order, whose id
    matches; when there is one it sets its status to [Done], saves and
    returns true; when there is none it returns false, writes nothing and
    changes nothing; completing again a task already [Done] returns true
    and leaves the status [Done]. *)
Theorem complete_task_first_match (task_id : Z) (self : TodoManager) (d : fs) :
  complete_task task_id self d =
    match list_find (λ t, id t = task_id) (tasks self) with
    | Some (i, t) =>
        let self' := mkManager (<[i := set_status Done t]> (tasks self)) in
        (true, self', save_tasks self' d)
    | None => (false, self, d)
    end
  ∧ (∀ self1 d1,
      complete_task task_id self d = (true, self1, d1) →
      complete_task task_id self1 d1 = (true, self1, save_tasks self1 d1) ∧
      ∃ i t, list_find (λ t, id t = task_id) (tasks self1) = Some (i, t) ∧
             status t = Done)
  ∧ (∀ i t,
      list_find (λ t, id t = task_id) (tasks self) = Some (i, t) →
      status t = Done →
      complete_task task_id self d = (true, self, save_tasks self d)).
Proof.
  unfold complete_task. rewrite complete_loop_find. split; [|split].
  - by destruct (list_find _ (tasks self)) as [[i t]|].
  - rewrite <- complete_loop_find. intros self1 d1.
    destruct (complete_loop task_id (tasks self)) as [ts|] eqn:E; [|done].
    intros [= <- <-]. destruct (complete_loop_again _ _ _ E) as [E' Hf].
    cbn [tasks]. by rewrite E'.
  - intros i t Hf Hs. rewrite Hf. cbn [fmap option_fmap option_map fst snd].
    apply list_find_Some in Hf as (Hi & _ & _).
    replace (set_status Done t) with t by (destruct t; simpl in Hs; by subst).
    rewrite list_insert_id by done. by destruct self.
Qed.

Lemma complete_task_first_match_witness :
  let self := mkManager [mkTask 1 "a" "General" Pending "t0";
                         mkTask 2 "b" "General" Pending "t1"] in
  let d := mkFs None 0 in
  let '(_, self1, d1) := complete_task 2 self d in
  complete_task 2 self1 d1 = (true, self1, save_tasks self1 d1) ∧
  ∃ i t, list_find (λ t, id t = 2) (tasks self1) = Some (i, t) ∧ status t = Done.
Proof.
  exact (proj1 (proj2 (complete_task_first_match 2
    (mkManager [mkTask 1 "a" "General" Pending "t0";
                mkTask 2 "b" "General" Pending "t1"]) (mkFs None 0))) _ _ eq_refl).
Defined.

(** ** [delete_task] *)

Lemma filter_length_le {A} (f : A → bool) (l : list A) :
  (length (List.filter f l) ≤ length l)%nat.
Proof. induction l as [|a l IH]; simpl; [lia|]. destruct (f a); simpl; lia. Qed.

Lemma filter_length_eq {A} (f : A → bool) (l : list A) :
  length (List.filter f l) = length l → List.filter f l = l.
Proof.
  induction l as [|a l IH]; simpl; [done|].
  pose proof (filter_length_le f l).
  destruct (f a); simpl; intros; [f_equal; apply IH|]; lia.
Qed.

Lemma filter_all {A} (f : A → bool) (l : list A) :
  List.filter f l = l → ∀ x, x ∈ l → f x = true.
Proof.
  induction l as [|a l IH]; simpl; [by intros _ x ?%elem_of_nil|].
  pose proof (filter_length_le f l).
  destruct (f a) eqn:E.
  - intros [= Hl] x [->|Hx]%elem_of_cons; [done | by apply IH].
  - intros Hl. apply (f_equal length) in Hl. simpl in Hl. lia.
Qed.

(** The spelled-out result of [delete_task]: every task whose id matches
    is removed; the outcome is true exactly when the id was present. *)
Lemma delete_task_eq (task_id : Z) (self : TodoManager) (d : fs) :
  delete_task task_id self d =
    if bool_decide (task_id ∈ ids self)
    then let self' := mkManager (List.filter (λ t, negb (id t =? task_id)) (tasks self)) in
         (true, self', save_tasks self' d)
    else (false, self, d).
Proof.
  unfold delete_task. cbn [tasks]. destruct self as [ts]. cbn [tasks].
  pose proof (filter_length_le (λ t, negb (id t =? task_id)) ts) as Hle.
  destruct (Nat.ltb_spec (length (List.filter (λ t, negb (id t =? task_id)) ts))
              (length ts)) as [Hlt|Hge].
  - rewrite bool_decide_eq_true_2; [done|].
    destruct (decide (task_id ∈ ids (mkManager ts))) as [|Hn]; [done|]. exfalso.
    assert (List.filter (λ t, negb (id t =? task_id)) ts = ts) as E; [|rewrite E in Hlt; lia].
    clear Hlt Hle. unfold ids in Hn. cbn [tasks] in Hn.
    induction ts as [|t ts IH]; [done|]. simpl.
    rewrite fmap_cons, not_elem_of_cons in Hn. destruct Hn as [Hn1 Hn2].
    rewrite (proj2 (Z.eqb_neq _ _)) by done. simpl. by rewrite IH.
  - assert (List.filter (λ t, negb (id t =? task_id)) ts = ts) as E.
    { apply filter_length_eq. lia. }
    rewrite E. rewrite bool_decide_eq_false_2; [done|].
    unfold ids. cbn [tasks]. intros (t & -> & Ht)%list_elem_of_fmap.
    pose proof (filter_all _ _ E t Ht) as Hf. simpl in Hf.
    by rewrite Z.eqb_refl in Hf.
Qed.

Lemma filter_remove_first (task_id : Z) (ts : list Task) :
  NoDup (id <$> ts) →
  List.filter (λ t, negb (id t =? task_id)) ts = remove_first task_id ts.
Proof.
  induction ts as [|t ts IH]; [done|].
  rewrite fmap_cons, NoDup_cons. intros [Hn Hd]. simpl.
  destruct (Z.eqb_spec (id t) task_id) as [E|E]; simpl.
  - subst task_id. clear IH Hd. induction ts as [|t' ts IH]; [done|].
    rewrite fmap_cons, not_elem_of_cons in Hn. destruct Hn as [Hn1 Hn2].
    simpl. rewrite (proj2 (Z.eqb_neq _ _)) by done. simpl. by rewrite IH.
  - by rewrite IH.
Qed.

Lemma ids_filter (task_id : Z) (ts : list Task) :
  id <$> List.filter (λ t, negb (id t =? task_id)) ts =
  List.filter (λ i, negb (i =? task_id)) (id <$> ts).
Proof.
  induction ts as [|t ts IH]; [done|]. simpl.
  destruct (id t =? task_id); simpl; [|f_equal]; apply IH.
Qed.

(** C4 (as amended).  [delete_task] removes every task whose id matches,
    which is the first such task when ids are unique; when a task was
    removed it saves and returns true, otherwise it returns false, writes
    nothing and leaves the store as it was; on a store with ids 1, 2, 3,
    deleting 1 leaves exactly 2, 3 and returns true, and deleting 99
    returns false and changes nothing. *)
Theorem delete_task_removes_matching (task_id : Z) (self : TodoManager) (d : fs) :
  delete_task task_id self d =
    (if bool_decide (task_id ∈ ids self)
     then let self' :=
            mkManager (List.filter (λ t, negb (id t =? task_id)) (tasks self)) in
          (true, self', save_tasks self' d)
     else (false, self, d))
  ∧ (NoDup (ids self) →
     tasks (delete_task task_id self d).1.2 = remove_first task_id (tasks self))
  ∧ (ids self = [1; 2; 3] →
     (delete_task 1 self d).1.1 = true ∧
     ids (delete_task 1 self d).1.2 = [2; 3] ∧
     delete_task 99 self d = (false, self, d)).
Proof.
  split; [apply delete_task_eq|]. split.
  - intros Hnd. rewrite <- filter_remove_first by done.
    rewrite delete_task_eq. case_bool_decide as Hin; [done|]. cbn [fst snd].
    symmetry. apply filter_length_eq. apply (f_equal length).
    rewrite filter_remove_first by done. clear Hnd. unfold ids in Hin.
    induction (tasks self) as [|t ts IH]; [done|].
    rewrite fmap_cons, not_elem_of_cons in Hin. destruct Hin as [Hn1 Hn2]. simpl.
    rewrite (proj2 (Z.eqb_neq _ _)) by done. by rewrite IH.
  - intros Hids. rewrite !delete_task_eq, Hids.
    rewrite bool_decide_eq_true_2 by (by left).
    rewrite bool_decide_eq_false_2.
    2: { rewrite !elem_of_cons, elem_of_nil. lia. }
    cbn [fst snd]. unfold ids. cbn [tasks].
    rewrite ids_filter. unfold ids in Hids. by rewrite Hids.
Qed.

Lemma delete_task_removes_matching_witness :
  let self := mkManager [mkTask 1 "a" "General" Pending "t0";
                         mkTask 2 "b" "Work" Pending "t1";
                         mkTask 3 "c" "General" Pending "t2"] in
  let d := mkFs None 0 in
  (NoDup (ids self) ∧ ids self = [1; 2; 3]) ∧
  tasks (delete_task 2 self d).1.2 = remove_first 2 (tasks self) ∧
  (delete_task 1 self d).1.1 = true ∧
  ids (delete_task 1 self d).1.2 = [2; 3] ∧
  delete_task 99 self d = (false, self, d).
Proof.
  intros self d.
  assert (NoDup (ids self)) as Hnd.
  { apply NoDup_ListNoDup. repeat constructor; simpl; lia. }
  split; [by split|]. split.
  - exact (proj1 (proj2 (delete_task_removes_matching 2 self d)) Hnd).
  - exact (proj2 (proj2 (delete_task_removes_matching 2 self d)) eq_refl).
Defined.

(** C4, counterexample.  A file may hold two tasks with the same id; the
    store loads them, and [delete_task] then removes both, not the first
    alone. *)
Lemma delete_task_not_only_first :
  let t1 := mkTask 1 "a" "General" Pending "t0" in
  let t2 := mkTask 1 "b" "General" Pending "t1" in
  init (mkFs (Some (Text (JArr [to_dict t1; to_dict t2]))) 0)
    = Ok (Some (mkManager [t1; t2])) ∧
  tasks (delete_task 1 (mkManager [t1; t2]) (mkFs None 0)).1.2 = [] ∧
  tasks (delete_task 1 (mkManager [t1; t2]) (mkFs None 0)).1.2
    ≠ remove_first 1 [t1; t2].
Proof. by repeat split. Qed.

(** ** [load_tasks] *)

Lemma from_dict_has_fields (item : json) :
  if has_fields item then ∃ o, from_dict item = Ok o
  else from_dict item = Raise KeyError ∨ from_dict item = Raise TypeError.
Proof.
  destruct item as [| | | | | |m]; try (by right).
  unfold has_fields, from_dict, getitem. cbn [forallb].
  destruct (m !! "id"); [|by left].
  destruct (m !! "description"); [|by left].
  destruct (m !! "category"); [|by left].
  destruct (m !! "status"); [|by left].
  destruct (m !! "created_at"); [|by left].
  rewrite !bool_decide_eq_true_2 by done. by eexists.
Qed.

Lemma mapM_from_dict_has_fields (items : list json) :
  if forallb has_fields items then ∃ os, mapM from_dict items = Ok os
  else mapM from_dict items = Raise KeyError ∨ mapM from_dict items = Raise TypeError.
Proof.
  induction items as [|item items IH]; [by eexists|].
  cbn [forallb mapM]. pose proof (from_dict_has_fields item) as Hi.
  destruct (has_fields item).
  - destruct Hi as [o ->]. cbn [andb mbind result_bind].
    destruct (forallb has_fields items).
    + destruct IH as [os ->]. by eexists.
    + destruct IH as [-> | ->]; [by left | by right].
  - cbn [andb]. destruct Hi as [-> | ->]; [by left | by right].
Qed.

(** C5 (as amended).  When [DATA_FILE] is missing, loading leaves the
    collection as it is (empty at start-up); when its text is not JSON,
    loading yields the empty collection; neither raises.  When the text is
    JSON, loading goes through if the value iterates over objects that all
    carry the five field names, and raises [KeyError] or [TypeError]
    otherwise. *)
Theorem load_tasks_lenient (d : fs) :
  match file d with
  | None =>
      init d = Ok (Some (mkManager [])) ∧
      ∀ self, load_tasks self d = Ok (Some self)
  | Some Garbage =>
      init d = Ok (Some (mkManager [])) ∧
      ∀ self, load_tasks self d = Ok (Some (mkManager []))
  | Some (Text v) =>
      if record_list v then ∃ o, init d = Ok o
      else init d = Raise KeyError ∨ init d = Raise TypeError
  end.
Proof.
  unfold init, load_tasks, exists_, json_load.
  destruct (file d) as [[v|]|]; [|done..]. cbn [negb mbind result_bind].
  destruct v as [| | | |s|items|m]; try (by right).
  - destruct s as [|c s]; [by eexists | by right].
  - cbn [iter record_list mbind result_bind].
    pose proof (mapM_from_dict_has_fields items) as H.
    destruct (forallb has_fields items).
    + destruct H as [os ->]. by eexists.
    + destruct H as [-> | ->]; [by left | by right].
  - cbn [iter record_list mbind result_bind]. case_bool_decide as Hm.
    + subst m. rewrite map_to_list_empty. by eexists.
    + destruct (map_to_list m) as [|[k v] l] eqn:E.
      * by apply map_to_list_empty_iff in E.
      * by right.
Qed.

(** C5, counterexample.  A file holding the JSON text of a list with one
    empty object is loaded with a [KeyError]. *)
Lemma load_tasks_raises_KeyError :
  init (mkFs (Some (Text (JArr [JObj ∅]))) 0) = Raise KeyError.
Proof. reflexivity. Qed.

(** ** Sequences of operations *)

Lemma complete_loop_ids (task_id : Z) (ts ts' : list Task) :
  complete_loop task_id ts = Some ts' → id <$> ts' = id <$> ts.
Proof.
  revert ts'. induction ts as [|t ts IH]; intros ts'; [done|].
  cbn [complete_loop]. destruct (id t =? task_id).
  - by intros [= <-].
  - destruct (complete_loop task_id ts) as [ts1|]; [|done].
    intros [= <-]. rewrite !fmap_cons. f_equal. by apply IH.
Qed.

Lemma step_NoDup (s : TodoManager * fs) (o : op) :
  NoDup (ids s.1) → NoDup (ids (step s o).1).
Proof.
  destruct s as [self d]. destruct o as [description category now|task_id|task_id];
    cbn [step fst snd]; intros Hnd.
  - destruct (add_task_eq description category now self d) as (new_id & -> & Hid).
    cbn [fst]. unfold ids in *. cbn [tasks].
    rewrite fmap_app. apply NoDup_app. split; [done|]. split.
    + intros j Hj Hj'. apply list_elem_of_singleton in Hj'. cbn [id] in Hj'. subst j.
      destruct (id <$> tasks self) as [|j0 js]; [by apply elem_of_nil in Hj|].
      destruct Hid as (m & [_ Hle] & ->). specialize (Hle _ Hj). lia.
    + apply NoDup_singleton.
  - unfold complete_task.
    destruct (complete_loop task_id (tasks self)) as [ts|] eqn:E; [|done].
    cbn [fst]. unfold ids in *. cbn [tasks]. by rewrite (complete_loop_ids _ _ _ E).
  - rewrite delete_task_eq. case_bool_decide; [|done].
    cbn [fst]. unfold ids in *. cbn [tasks]. rewrite ids_filter.
    apply NoDup_ListNoDup, List.NoDup_filter, NoDup_ListNoDup, Hnd.
Qed.

(** Unique ids are an invariant of every sequence of operations. *)
Lemma run_NoDup (ops : list op) (s : TodoManager * fs) :
  NoDup (ids s.1) → NoDup (ids (run ops s).1).
Proof.
  unfold run. revert s. induction ops as [|o ops IH]; intros s Hnd; [done|].
  simpl. by apply IH, step_NoDup.
Qed.

(** C7 (as amended).  Whatever was deleted and done before, the id that
    [add_task] assigns is greater than every id in the store at that
    moment; so it is not the id [i] of a deleted task as long as the store
    still holds a task with id [i] or greater. *)
Theorem add_task_id_above_store (s : TodoManager * fs) (ops : list op) (i : Z)
    (description category now : string) :
  let s' := run (Delete i :: ops) s in
  ∃ new_id,
    added_id description category now s'.1 s'.2 = Some new_id ∧
    Forall (λ j, j < new_id) (ids s'.1) ∧
    ((∃ j, j ∈ ids s'.1 ∧ i ≤ j) → new_id ≠ i).
Proof.
  intros s'. unfold added_id.
  destruct (add_task_eq description category now s'.1 s'.2) as (new_id & E & Hid).
  exists new_id. rewrite E. cbn [fst snd tasks]. rewrite last_snoc.
  assert (Forall (λ j, j < new_id) (ids s'.1)) as Hall.
  { destruct (ids s'.1) as [|j0 js] eqn:Ej; [done|].
    destruct Hid as (m & [_ Hle] & ->).
    apply Forall_forall. intros j Hj. specialize (Hle j Hj). lia. }
  split; [done|]. split; [done|].
  intros (j & Hj & Hij). rewrite Forall_forall in Hall.
  specialize (Hall j Hj). lia.
Qed.

Lemma add_task_id_above_store_witness :
  let s := (mkManager [mkTask 1 "a" "General" Pending "t0";
                       mkTask 2 "b" "General" Pending "t1";
                       mkTask 3 "c" "General" Pending "t2"], mkFs None 0) in
  let s' := run [Delete 2] s in
  (∃ j, j ∈ ids s'.1 ∧ 2 ≤ j) ∧
  ∃ new_id, added_id "d" "General" "t3" s'.1 s'.2 = Some new_id ∧ new_id ≠ 2.
Proof.
  intros s s'.
  assert (∃ j, j ∈ ids s'.1 ∧ 2 ≤ j) as Hex.
  { exists 3. split; [by right; left | lia]. }
  split; [exact Hex|].
  destruct (add_task_id_above_store s [] 2 "d" "General" "t3")
    as (new_id & E & _ & Hne).
  exists new_id. split; [exact E | exact (Hne Hex)].
Defined.

(** C7, counterexample.  Add two tasks to the empty store, delete the
    second, add again: the new task gets id 2, the id of the deleted one. *)
Lemma deleted_id_is_reused : ¬ ids_never_reused.
Proof.
  intros H.
  apply (H (mkManager [], mkFs None 0)
           [Add "a" "General" "t0"; Add "b" "General" "t1"] [] 2
           "c" "General" "t2").
  - by right; left.
  - reflexivity.
Qed.

(** ** Write-through *)

(** C8.  After [add_task], and after a [complete_task] or [delete_task]
    that found its target, the file holds the serialization of the whole
    in-memory collection, written by that very operation in one write. *)
Theorem write_through (self : TodoManager) (d : fs) :
  (∀ description category now,
     let '(_, self', d') := add_task description category now self d in
     in_sync self' d' ∧ writes d' = S (writes d)) ∧
  (∀ task_id self' d',
     complete_task task_id self d = (true, self', d') →
     in_sync self' d' ∧ writes d' = S (writes d)) ∧
  (∀ task_id self' d',
     delete_task task_id self d = (true, self', d') →
     in_sync self' d' ∧ writes d' = S (writes d)).
Proof.
  split; [done|]. split; intros task_id self' d'.
  - unfold complete_task.
    destruct (complete_loop task_id (tasks self)); [|done]. by intros [= <- <-].
  - rewrite delete_task_eq. case_bool_decide; [|done]. by intros [= <- <-].
Qed.

Lemma write_through_witness :
  let self := mkManager [mkTask 1 "a" "General" Pending "t0";
                         mkTask 2 "b" "General" Pending "t1"] in
  let d := mkFs None 0 in
  (let '(_, self', d') := complete_task 2 self d in
   in_sync self' d' ∧ writes d' = 1%nat) ∧
  (let '(_, self', d') := delete_task 1 self d in
   in_sync self' d' ∧ writes d' = 1%nat).
Proof.
  intros self d. split.
  - exact (proj1 (proj2 (write_through self d)) 2 _ _ eq_refl).
  - exact (proj2 (proj2 (write_through self d)) 1 _ _ eq_refl).
Defined.

(* ===================================================================== *)
(** * Part V: further properties of the task store                       *)
(* ===================================================================== *)

(** ** Invariants of sequences of operations *)

(** X4.  Unique ids are an invariant: a store whose ids are pairwise
    distinct keeps them distinct through every sequence of [add_task],
    [complete_task] and [delete_task]. *)
Theorem run_keeps_ids_unique (ops : list op) (s : TodoManager * fs) :
  NoDup (ids s.1) → NoDup (ids (run ops s).1).
Proof.
  unfold run. revert s. induction ops as [|o ops IH]; intros s Hnd; [done|].
  cbn [foldl]. by apply IH, step_NoDup.
Qed.

Lemma run_keeps_ids_unique_witness :
  let s := (mkManager [mkTask 4 "a" "General" Pending "t0";
                       mkTask 2 "b" "General" Pending "t1"], mkFs None 0) in
  let ops := [Add "c" "Work" "t2"; Delete 2; Add "d" "Work" "t3"; Complete 5] in
  NoDup (ids s.1) ∧ NoDup (ids (run ops s).1).
Proof.
  intros s ops.
  assert (NoDup (ids s.1)) as Hnd.
  { apply NoDup_ListNoDup. repeat constructor; simpl; lia. }
  split; [exact Hnd | exact (run_keeps_ids_unique ops s Hnd)].
Defined.

Lemma StronglySorted_filter_lt (f : Z → bool) (l : list Z) :
  StronglySorted Z.lt l → StronglySorted Z.lt (List.filter f l).
Proof.
  induction 1 as [|x l Hs IH Hall]; simpl; [constructor|].
  destruct (f x); [|done]. constructor; [done|].
  apply Forall_forall. intros y Hy%list_elem_of_In%List.filter_In.
  destruct Hy as [Hy _]. apply list_elem_of_In in Hy.
  by eapply Forall_forall in Hall.
Qed.

Lemma step_keeps_ascending (s : TodoManager * fs) (o : op) :
  StronglySorted Z.lt (ids s.1) ∧ Forall (Z.le 1) (ids s.1) →
  StronglySorted Z.lt (ids (step s o).1) ∧ Forall (Z.le 1) (ids (step s o).1).
Proof.
  destruct s as [self d]. destruct o as [description category now|task_id|task_id];
    cbn [step fst snd]; intros [Hs Hp].
  - destruct (add_task_eq description category now self d) as (new_id & -> & Hid).
    cbn [fst]. unfold ids in *. cbn [tasks]. rewrite fmap_app. cbn [fmap list_fmap id].
    destruct (id <$> tasks self) as [|j0 js] eqn:Ej.
    { subst new_id. split; [repeat constructor | by repeat constructor]. }
    destruct Hid as (m & [Hm Hle] & ->).
    pose proof (proj1 (Forall_forall _ _) Hp m Hm) as Hm1. split.
    + apply StronglySorted_app. split; [|split; [done | repeat constructor]].
      intros x1 x2 Hx1 ->%list_elem_of_singleton. specialize (Hle _ Hx1). lia.
    + apply Forall_app. split; [done|]. repeat constructor. lia.
  - unfold complete_task.
    destruct (complete_loop task_id (tasks self)) as [ts|] eqn:E; [|done].
    cbn [fst]. unfold ids in *. cbn [tasks]. by rewrite (complete_loop_ids _ _ _ E).
  - rewrite delete_task_eq. case_bool_decide; [|done].
    cbn [fst]. unfold ids in *. cbn [tasks]. rewrite ids_filter. split.
    + by apply StronglySorted_filter_lt.
    + apply Forall_forall. intros y Hy%list_elem_of_In%List.filter_In.
      destruct Hy as [Hy _]. apply list_elem_of_In in Hy.
      by eapply Forall_forall in Hp.
Qed.

(** X5.  In a store built from the empty one by any sequence of
    operations, the ids are positive and strictly increasing along the
    collection: the order of the tasks is the order of their ids. *)
Theorem run_from_empty_ascending (ops : list op) (d : fs) :
  StronglySorted Z.lt (ids (run ops (mkManager [], d)).1) ∧
  Forall (Z.le 1) (ids (run ops (mkManager [], d)).1).
Proof.
  assert (∀ s, StronglySorted Z.lt (ids s.1) ∧ Forall (Z.le 1) (ids s.1) →
               StronglySorted Z.lt (ids (run ops s).1) ∧
               Forall (Z.le 1) (ids (run ops s).1)) as H.
  { unfold run. induction ops as [|o ops IH]; intros s Hs; [done|].
    cbn [foldl]. by apply IH, step_keeps_ascending. }
  apply H. split; constructor.
Qed.

Lemma init_save_tasks (self : TodoManager) (d : fs) :
  init (save_tasks self d) = Ok (Some self).
Proof.
  unfold init, save_tasks, json_dump, load_tasks.
  cbn [exists_ file negb json_load iter mbind result_bind].
  rewrite mapM_from_dict_to_dict. cbn [mbind result_bind mret result_ret].
  rewrite mapM_fmap_Some by done. by destruct self.
Qed.

(** Each operation either saves the store it leaves or leaves store and
    file as they were. *)
Lemma step_saves_or_skips (s : TodoManager * fs) (o : op) :
  (step s o).2 = save_tasks (step s o).1 s.2 ∨ step s o = s.
Proof.
  destruct s as [self d]. destruct o as [description category now|task_id|task_id];
    cbn [step fst snd].
  - left. by destruct (add_task_eq description category now self d) as (? & -> & _).
  - unfold complete_task.
    destruct (complete_loop task_id (tasks self)); [by left | by right].
  - rewrite delete_task_eq. case_bool_decide; [by left | by right].
Qed.

(** X6.  Once the file holds the serialization of the in-memory
    collection, it does so after every sequence of operations: the
    operations that change the collection write it, the others leave both
    alone. *)
Theorem run_keeps_in_sync (ops : list op) (s : TodoManager * fs) :
  in_sync s.1 s.2 → in_sync (run ops s).1 (run ops s).2.
Proof.
  unfold run. revert s. induction ops as [|o ops IH]; intros s Hs; [done|].
  cbn [foldl]. apply IH.
  destruct (step_saves_or_skips s o) as [E|E]; [by rewrite E | by rewrite E].
Qed.

Lemma run_keeps_in_sync_witness :
  let self := mkManager [mkTask 1 "a" "General" Pending "t0"] in
  let s := (self, save_tasks self (mkFs None 0)) in
  let ops := [Complete 7; Add "b" "Work" "t1"; Delete 9; Complete 1] in
  in_sync s.1 s.2 ∧ in_sync (run ops s).1 (run ops s).2.
Proof.
  intros self s ops.
  assert (in_sync s.1 s.2) as Hs by reflexivity.
  split; [exact Hs | exact (run_keeps_in_sync ops s Hs)].
Defined.

Lemma complete_loop_statuses (P : Task → Prop) (task_id : Z) (ts ts' : list Task) :
  (∀ t, P (set_status Done t)) →
  Forall P ts → complete_loop task_id ts = Some ts' → Forall P ts'.
Proof.
  intros HP Hall. revert ts'. induction Hall as [|t ts Ht Hall IH]; intros ts'; [done|].
  cbn [complete_loop]. destruct (id t =? task_id).
  - intros [= <-]. by constructor.
  - destruct (complete_loop task_id ts) as [ts1|]; [|done].
    intros [= <-]. constructor; [done | by apply IH].
Qed.

(** X7.  The program stores two status values only: in a store built from
    the empty one by any sequence of operations every task is either
    [Pending] or [Done]. *)
Theorem run_from_empty_statuses (ops : list op) (d : fs) :
  Forall (λ t, status t = Pending ∨ status t = Done)
    (tasks (run ops (mkManager [], d)).1).
Proof.
  assert (∀ s, Forall (λ t, status t = Pending ∨ status t = Done) (tasks s.1) →
               Forall (λ t, status t = Pending ∨ status t = Done)
                 (tasks (run ops s).1)) as H.
  { unfold run. induction ops as [|o ops IH]; intros s Hs; [done|].
    cbn [foldl]. apply IH. clear IH.
    destruct s as [self dd].
    destruct o as [description category now|task_id|task_id]; cbn [step fst snd] in *.
    - destruct (add_task_eq description category now self dd) as (new_id & -> & _).
      cbn [fst tasks]. apply Forall_app. split; [done|]. constructor; [by left | done].
    - unfold complete_task.
      destruct (complete_loop task_id (tasks self)) as [ts|] eqn:E; [|done].
      cbn [fst tasks]. eapply complete_loop_statuses; [|exact Hs|exact E].
      intros t. by right.
    - rewrite delete_task_eq. case_bool_decide; [|done]. cbn [fst tasks].
      apply Forall_forall. intros t Ht%list_elem_of_In%List.filter_In.
      destruct Ht as [Ht _]. apply list_elem_of_In in Ht.
      by eapply Forall_forall in Hs. }
  apply H. constructor.
Qed.

(** ** How the operations compose *)

Lemma complete_loop_absent (task_id : Z) (ts : list Task) :
  task_id ∉ id <$> ts → complete_loop task_id ts = None.
Proof.
  induction ts as [|t ts IH]; [done|].
  rewrite fmap_cons, not_elem_of_cons. intros [Hne Hn]. cbn [complete_loop].
  rewrite (proj2 (Z.eqb_neq _ _)) by done. by rewrite IH.
Qed.

Lemma filter_absent (task_id : Z) (ts : list Task) :
  task_id ∉ id <$> ts → List.filter (λ t, negb (id t =? task_id)) ts = ts.
Proof.
  induction ts as [|t ts IH]; [done|].
  rewrite fmap_cons, not_elem_of_cons. intros [Hne Hn]. simpl.
  rewrite (proj2 (Z.eqb_neq _ _)) by done. simpl. by rewrite IH.
Qed.

(** X8.  After [delete_task] for an id, whether or not it found one, no
    task of the store has that id: completing or deleting that id again
    returns false and touches neither the store nor the file. *)
Theorem delete_task_then_gone (task_id : Z) (self : TodoManager) (d : fs) :
  let '(_, self', d') := delete_task task_id self d in
  (task_id ∉ ids self') ∧
  complete_task task_id self' d' = (false, self', d') ∧
  delete_task task_id self' d' = (false, self', d').
Proof.
  destruct (delete_task task_id self d) as [[b self'] d'] eqn:E.
  assert (task_id ∉ ids self') as Hn.
  { rewrite delete_task_eq in E. case_bool_decide as Hin.
    - injection E as _ <- _. unfold ids. cbn [tasks]. rewrite ids_filter.
      intros Hx%list_elem_of_In%List.filter_In. destruct Hx as [_ Hx].
      by rewrite Z.eqb_refl in Hx.
    - by injection E as _ <- _. }
  split; [done|]. split.
  - unfold complete_task. by rewrite complete_loop_absent.
  - rewrite delete_task_eq. by rewrite bool_decide_eq_false_2.
Qed.

Lemma new_id_absent (description category now : string) (self : TodoManager)
    (d : fs) (new_id : Z) :
  added_id description category now self d = Some new_id → new_id ∉ ids self.
Proof.
  unfold added_id.
  destruct (add_task_eq description category now self d) as (n & -> & Hid).
  cbn [fst snd tasks]. rewrite last_snoc. intros [= <-]. unfold ids in *.
  destruct (id <$> tasks self) as [|j0 js]; [apply not_elem_of_nil|].
  destruct Hid as (m & [_ Hle] & ->). intros Hin. specialize (Hle _ Hin). lia.
Qed.

(** X9.  Deleting the task that [add_task] has just created gives back the
    collection as it was before the [add], in every store: the new id
    belongs to no other task.  The file then holds that collection. *)
Theorem add_then_delete_restores (description category now : string)
    (self : TodoManager) (d : fs) :
  ∃ new_id task,
    added_id description category now self d = Some new_id ∧
    add_task description category now self d =
      (None, mkManager (tasks self ++ [task]),
       save_tasks (mkManager (tasks self ++ [task])) d) ∧
    id task = new_id ∧
    delete_task new_id (mkManager (tasks self ++ [task]))
      (save_tasks (mkManager (tasks self ++ [task])) d) =
      (true, self, save_tasks self (save_tasks (mkManager (tasks self ++ [task])) d)).
Proof.
  destruct (add_task_eq description category now self d) as (new_id & E & Hid).
  pose proof (new_id_absent description category now self d new_id) as Hn.
  unfold added_id in *. rewrite E in *. cbn [fst snd tasks] in *.
  rewrite last_snoc in *. specialize (Hn eq_refl).
  exists new_id, (mkTask new_id description category Pending now).
  repeat split. rewrite delete_task_eq.
  rewrite bool_decide_eq_true_2.
  2: { unfold ids. cbn [tasks]. rewrite fmap_app. apply elem_of_app. right. by left. }
  cbn [tasks]. rewrite List.filter_app, filter_absent by done.
  cbn [List.filter id]. rewrite Z.eqb_refl. cbn [negb]. rewrite app_nil_r.
  by destruct self.
Qed.

Lemma complete_loop_last (task_id : Z) (ts : list Task) (t : Task) :
  task_id ∉ id <$> ts → id t = task_id →
  complete_loop task_id (ts ++ [t]) = Some (ts ++ [set_status Done t]).
Proof.
  intros Hn Ht. induction ts as [|t0 ts IH]; cbn [app complete_loop].
  - by rewrite (proj2 (Z.eqb_eq _ _) Ht).
  - rewrite fmap_cons, not_elem_of_cons in Hn. destruct Hn as [Hne Hn].
    rewrite (proj2 (Z.eqb_neq _ _)) by done. by rewrite IH.
Qed.

(** X10.  Completing the id that [add_task] has just assigned marks the
    new task, the last of the collection, and no older one, in every
    store. *)
Theorem add_then_complete_marks_new (description category now : string)
    (self : TodoManager) (d : fs) :
  ∃ new_id,
    (add_task description category now self d).1.2 =
      mkManager (tasks self ++ [mkTask new_id description category Pending now]) ∧
    ∀ d', complete_task new_id
            (mkManager (tasks self ++ [mkTask new_id description category Pending now])) d' =
          let self' :=
            mkManager (tasks self ++ [mkTask new_id description category Done now]) in
          (true, self', save_tasks self' d').
Proof.
  destruct (add_task_eq description category now self d) as (new_id & E & Hid).
  pose proof (new_id_absent description category now self d new_id) as Hn.
  unfold added_id in Hn. rewrite E in *. cbn [fst snd tasks] in *.
  rewrite last_snoc in Hn. specialize (Hn eq_refl).
  exists new_id. split; [done|]. intros d'. unfold complete_task. cbn [tasks].
  by rewrite complete_loop_last.
Qed.

(** ** [display_tasks] *)

Lemma prefix_spec (sub s : string) :
  String.prefix sub s = true ↔ ∃ post, s = sub +:+ post.
Proof.
  revert s. induction sub as [|a sub IH]; intros s.
  - split; [intros _; by exists s | by destruct s].
  - destruct s as [|b s]; cbn [String.prefix].
    + split; [done | by intros [post ?]].
    + destruct (Ascii.ascii_dec a b) as [->|Hne].
      * rewrite IH. split; intros [post E]; exists post.
        -- by rewrite E.
        -- by injection E.
      * split; [done|]. intros [post E]. by injection E.
Qed.

Lemma str_in_spec (sub s : string) :
  str_in sub s = true ↔ ∃ pre post, s = pre +:+ sub +:+ post.
Proof.
  induction s as [|c s IH]; cbn [str_in]; rewrite orb_true_iff, prefix_spec.
  - split.
    + intros [[post E]|]; [|done]. by exists "", post.
    + intros (pre & post & E). left. destruct pre; [by exists post | done].
  - rewrite IH. split.
    + intros [[post E]|(pre & post & E)].
      * by exists "", post.
      * exists (String c pre), post. simpl. by rewrite E.
    + intros (pre & post & E). destruct pre as [|c' pre].
      * left. by exists post.
      * right. exists pre, post. by injection E.
Qed.

(** X11.  The status cell of a row is green exactly when the text of the
    status has "Done" somewhere in it, and red otherwise, whatever the
    status says around it; the cell always shows the status in full. *)
Theorem row_colour (task : Task) :
  ((∃ pre post, status task = pre +:+ "Done" +:+ post) ∧
   row task !! 3%nat = Some ("[green]" +:+ status task +:+ "[/green]"))
  ∨
  ((¬ ∃ pre post, status task = pre +:+ "Done" +:+ post) ∧
   row task !! 3%nat = Some ("[red]" +:+ status task +:+ "[/red]")).
Proof.
  unfold row. cbn [lookup list_lookup].
  destruct (str_in "Done" (status task)) eqn:E.
  - left. split; [by apply str_in_spec | done].
  - right. split; [|done]. intros H%str_in_spec. congruence.
Qed.

(** X12.  On a store whose statuses are the program's own, [display_tasks]
    prints the "no tasks" line when the store is empty and otherwise one
    table with a row per task, in the order of the collection, each showing
    the id in decimal, the description, the category, the creation time,
    and the status in green for [Done] and in red for [Pending]. *)
Theorem display_tasks_rows (self : TodoManager) :
  Forall (λ t, status t = Pending ∨ status t = Done) (tasks self) →
  match tasks self with
  | [] => display_tasks self =
            [Markup "[yellow]No tasks found. Add one using 'add'![/yellow]"]
  | _ :: _ =>
      ∃ tbl, display_tasks self = [PrintTable tbl] ∧
        rows tbl =
          (λ t, [pretty (id t); description t; category t;
                 if decide (status t = Done) then "[green]Done ✅[/green]"
                 else "[red]Pending[/red]";
                 created_at t]) <$> tasks self
  end.
Proof.
  intros Hall. unfold display_tasks, get_all_tasks.
  destruct (tasks self) as [|t0 ts] eqn:E; [done|].
  eexists. split; [reflexivity|]. cbn [rows].
  revert Hall. generalize (t0 :: ts). intros l Hall.
  induction Hall as [|t l [Ht|Ht] _ IH]; [done|..]; rewrite !fmap_cons, IH; f_equal;
    unfold row; rewrite Ht; done.
Qed.

Lemma display_tasks_rows_witness :
  let self := mkManager [mkTask 1 "a" "General" Done "t0";
                         mkTask 12 "b" "Work" Pending "t1"] in
  ∃ tbl, display_tasks self = [PrintTable tbl] ∧
    rows tbl = [["1"; "a"; "General"; "[green]Done ✅[/green]"; "t0"];
                ["12"; "b"; "Work"; "[red]Pending[/red]"; "t1"]].
Proof.
  intros self.
  assert (Forall (λ t, status t = Pending ∨ status t = Done) (tasks self)) as H.
  { constructor; [by right|]. constructor; [by left|]. constructor. }
  exact (display_tasks_rows self H).
Defined.

(** ** Loading: which records pass and which exception leaves *)




(** X14.  When the file holds JSON that is not a list, loading raises
    [TypeError], with two exceptions: the empty object and the empty
    string are iterated as nothing, and the load replaces the collection
    with the empty one without a word. *)
Theorem load_tasks_not_a_list (self : TodoManager) (v : json) (n : nat) :
  match v with
  | JArr _ => True
  | JObj m =>
      load_tasks self (mkFs (Some (Text v)) n) =
        if decide (m = ∅) then Ok (Some (mkManager [])) else Raise TypeError
  | JStr s =>
      load_tasks self (mkFs (Some (Text v)) n) =
        if decide (s = "") then Ok (Some (mkManager [])) else Raise TypeError
  | JNull | JBool _ | JInt _ | JFloat _ =>
      load_tasks self (mkFs (Some (Text v)) n) = Raise TypeError
  end.
Proof.
  destruct v as [| | | |s|items|m]; try done.
  - by destruct s.
  - unfold load_tasks. cbn [exists_ file negb json_load iter mbind result_bind].
    case_decide as Hm.
    + subst m. by rewrite map_to_list_empty.
    + destruct (map_to_list m) as [|[k v] l] eqn:E; [|done].
      by apply map_to_list_empty_iff in E.
Qed.

(** X15.  A record that loads keeps its five fields and nothing else:
    the dictionary that [to_dict] makes of the loaded task is part of the
    object it was read from, so any other member of that object is gone at
    the next save. *)
Theorem from_dict_keeps_five_fields (m : gmap string json) (t : Task) :
  from_dict (JObj m) = Ok (Some t) →
  ∃ m', to_dict t = JObj m' ∧ m' ⊆ m ∧
        dom m' = {["id"; "description"; "category"; "status"; "created_at"]}.
Proof.
  unfold from_dict, getitem.
  destruct (m !! "id") as [i|] eqn:E1; [|done].
  destruct (m !! "description") as [de|] eqn:E2; [|done].
  destruct (m !! "category") as [c|] eqn:E3; [|done].
  destruct (m !! "status") as [st|] eqn:E4; [|done].
  destruct (m !! "created_at") as [ca|] eqn:E5; [|done].
  cbn [mbind result_bind mret result_ret].
  destruct i; try done. destruct de; try done. destruct c; try done.
  destruct st; try done. destruct ca; try done.
  intros [= <-]. eexists. split; [reflexivity|]. cbn [id description category status created_at].
  split.
  - apply map_subseteq_spec. intros k v.
    rewrite !lookup_insert_Some, lookup_empty. naive_solver.
  - rewrite !dom_insert_L, dom_empty_L. set_solver.
Qed.

Lemma from_dict_keeps_five_fields_witness :
  let t := mkTask 3 "a" "General" Pending "t0" in
  let m : gmap string json :=
    <["priority" := JInt 9]> (<["id" := JInt 3]> (<["description" := JStr "a"]>
      (<["category" := JStr "General"]> (<["status" := JStr Pending]>
        (<["created_at" := JStr "t0"]> ∅))))) in
  from_dict (JObj m) = Ok (Some t) ∧
  ∃ m', to_dict t = JObj m' ∧ m' ⊆ m ∧ m' !! "priority" = None.
Proof.
  intros t m.
  assert (from_dict (JObj m) = Ok (Some t)) as E by reflexivity.
  split; [exact E|].
  destruct (from_dict_keeps_five_fields m t E) as (m' & Et & Hsub & Hdom).
  exists m'. split; [exact Et|]. split; [exact Hsub|].
  apply not_elem_of_dom. rewrite Hdom. set_solver.
Defined.

(** ** [main]: one run of the program per command line *)

Lemma main_loaded (a : args) (now : string) (self : TodoManager) (d : fs) :
  init d = Ok (Some self) →
  ∃ out, main a now d = Ok (Some (out, (run (op_of (a, now)) (self, d)).2)).
Proof.
  intros E. unfold main. rewrite E.
  cbn [mbind result_bind option_bind mret result_ret].
  destruct a as [description cat| |id|id|]; cbn [op_of fst snd run foldl step].
  - destruct (add_task description cat now self d) as [[? ?] ?]. by eexists.
  - by eexists.
  - destruct (complete_task id self d) as [[[] ?] ?]; by eexists.
  - destruct (delete_task id self d) as [[[] ?] ?]; by eexists.
  - by eexists.
Qed.

Lemma init_step (s : TodoManager * fs) (o : op) :
  init s.2 = Ok (Some s.1) → init (step s o).2 = Ok (Some (step s o).1).
Proof.
  intros E. destruct (step_saves_or_skips s o) as [-> | ->]; [|done].
  apply init_save_tasks.
Qed.

Lemma init_run (ops : list op) (s : TodoManager * fs) :
  init s.2 = Ok (Some s.1) → init (run ops s).2 = Ok (Some (run ops s).1).
Proof.
  unfold run. revert s. induction ops as [|o ops IH]; intros s E; [done|].
  cbn [foldl]. by apply IH, init_step.
Qed.

(** X16.  Runs of the program, each a process of its own that loads the
    file, carries out one command and exits, have on the file the effect
    that the same operations have on one manager kept in memory: the file
    after the last run is the one that manager would have left, and
    loading it gives the collection that manager would hold. *)
Theorem session_simulates_run (runs : list (args * string))
    (self : TodoManager) (d : fs) :
  init d = Ok (Some self) →
  session runs d = Ok (Some (run (concat (op_of <$> runs)) (self, d)).2) ∧
  init (run (concat (op_of <$> runs)) (self, d)).2 =
    Ok (Some (run (concat (op_of <$> runs)) (self, d)).1).
Proof.
  intros E. split; [|by apply init_run].
  revert self d E. induction runs as [|[a now] runs IH]; intros self d E; [done|].
  cbn [session fmap list_fmap concat].
  destruct (main_loaded a now self d E) as [out ->].
  cbn [mbind result_bind]. unfold run at 2. rewrite foldl_app.
  fold (run (op_of (a, now)) (self, d)). fold (run (concat (op_of <$> runs))).
  pose proof (init_run (op_of (a, now)) (self, d) E) as E'.
  destruct (run (op_of (a, now)) (self, d)) as [self1 d1]. by apply IH.
Qed.

Lemma session_simulates_run_witness :
  let d := mkFs None 0 in
  let runs := [(args_add "buy milk" "Personal", "t0"); (args_list, "t1");
               (args_done 1, "t2"); (args_add "call" "General", "t3");
               (args_delete 7, "t4")] in
  let s' := run [Add "buy milk" "Personal" "t0"; Complete 1; Add "call" "General" "t3";
                 Delete 7] (mkManager [], d) in
  init d = Ok (Some (mkManager [])) ∧
  session runs d = Ok (Some s'.2) ∧ init s'.2 = Ok (Some s'.1).
Proof.
  intros d runs s'. split; [reflexivity|].
  exact (session_simulates_run runs (mkManager []) d eq_refl).
Defined.

Lemma complete_loop_present (task_id : Z) (ts : list Task) :
  task_id ∈ id <$> ts → is_Some (complete_loop task_id ts).
Proof.
  induction ts as [|t ts IH]; [by intros ?%elem_of_nil|].
  rewrite fmap_cons. cbn [complete_loop].
  destruct (Z.eqb_spec (id t) task_id) as [E|E]; [by eexists|].
  intros [?|Hin]%elem_of_cons; [done|]. destruct (IH Hin) as [ts' ->]. by eexists.
Qed.

(** X17.  What [done] and [delete] report is what happened: for an id
    that no loaded task has, both print "not found" and leave the file
    untouched; for an id that a loaded task has, [done] prints "marked as
    done", [delete] prints "deleted", and each has written the file once. *)
Theorem main_done_delete_report (id : Z) (now : string)
    (self : TodoManager) (d : fs) :
  init d = Ok (Some self) →
  if bool_decide (id ∈ ids self)
  then (∃ d1, main (args_done id) now d =
                Ok (Some ([Markup ("[bold green]Task " +:+ pretty id
                                   +:+ " marked as done![/bold green]")], d1)) ∧
              writes d1 = S (writes d)) ∧
       (∃ d2, main (args_delete id) now d =
                Ok (Some ([Markup ("[bold red]Task " +:+ pretty id
                                   +:+ " deleted.[/bold red]")], d2)) ∧
              writes d2 = S (writes d))
  else main (args_done id) now d =
         Ok (Some ([Markup ("[bold red]Task " +:+ pretty id
                            +:+ " not found.[/bold red]")], d)) ∧
       main (args_delete id) now d =
         Ok (Some ([Markup ("[bold red]Task " +:+ pretty id
                            +:+ " not found.[/bold red]")], d)).
Proof.
  intros E. unfold main. rewrite E.
  cbn [mbind result_bind option_bind mret result_ret].
  rewrite delete_task_eq. unfold complete_task.
  case_bool_decide as Hin.
  - destruct (complete_loop_present id (tasks self) Hin) as [ts ->].
    split; by eexists.
  - by rewrite complete_loop_absent.
Qed.

Lemma main_done_delete_report_witness :
  let self := mkManager [mkTask 1 "a" "General" Pending "t0"] in
  let d := save_tasks self (mkFs None 0) in
  init d = Ok (Some self) ∧
  main (args_done 5) "t1" d =
    Ok (Some ([Markup "[bold red]Task 5 not found.[/bold red]"], d)) ∧
  main (args_delete 5) "t1" d =
    Ok (Some ([Markup "[bold red]Task 5 not found.[/bold red]"], d)).
Proof.
  intros self d. split; [reflexivity|].
  exact (main_done_delete_report 5 "t1" self d eq_refl).
Defined.




(** X19.  When the file is missing, or holds text that is not JSON, [add]
    starts over: it reports success and writes a file that holds the new
    task alone, with id 1; what the unreadable file held is overwritten. *)
Theorem main_add_starts_over (description cat now : string) (d : fs) :
  file d = None ∨ file d = Some Garbage →
  main (args_add description cat) now d =
    Ok (Some ([Markup "[bold green]Task added successfully![/bold green]"],
              mkFs (Some (Text (JArr [to_dict (mkTask 1 description cat Pending now)])))
                   (S (writes d)))).
Proof.
  intros Ef. unfold main, init, load_tasks, exists_, json_load.
  by destruct Ef as [-> | ->].
Qed.

Lemma main_add_starts_over_witness :
  let d := mkFs (Some Garbage) 4 in
  (file d = None ∨ file d = Some Garbage) ∧
  main (args_add "buy milk" "Personal") "t0" d =
    Ok (Some ([Markup "[bold green]Task added successfully![/bold green]"],
              mkFs (Some (Text (JArr [to_dict (mkTask 1 "buy milk" "Personal" Pending "t0")])))
                   5)).
Proof.
  intros d.
  assert (file d = None ∨ file d = Some Garbage) as H by (by right).
  split; [exact H|].
  exact (main_add_starts_over "buy milk" "Personal" "t0" d H).
Defined.

End TodoSpec.
